(** * ELIZA/main.py: the pattern-match-and-reflect responder

    A shallow embedding of [src/ELIZA/main.py] and the properties of its
    rule table, of [reflect] and of the read loop [eliza_chat].

    A Python [str] is modelled as the list of its code points, restricted to
    U+0000..U+00FF (one [ascii] per code point).  That range is closed under
    [str.lower], and on it [re.IGNORECASE] identifies exactly a letter with
    its other case.  Exceptions are explicit: every operation that can raise
    in Python returns a [result]. *)

From Stdlib Require Import Ascii String NArith.
From stdpp Require Import gmap strings list.

Local Open Scope char_scope.

(** ** Strings *)

Definition str := list ascii.

(** A Python string literal. *)
Definition py (s : string) : str := list_ascii_of_string s.

(** [str.lower] on one code point: A-Z and the Latin-1 capitals
    U+00C0..U+00DE (U+00D7, the multiplication sign, is not a letter). *)
Definition lower_char (c : ascii) : ascii :=
  let n := N_of_ascii c in
  if ((65 <=? n) && (n <=? 90) || (192 <=? n) && (n <=? 222) && negb (n =? 215))%N
  then ascii_of_N (n + 32)
  else c.

Definition lower (s : str) : str := lower_char <$> s.

(** [str.isspace] on one code point: what [str.split()] splits on. *)
Definition isspace (c : ascii) : bool :=
  let n := N_of_ascii c in
  ((9 <=? n) && (n <=? 13) || (28 <=? n) && (n <=? 32) || (n =? 133) || (n =? 160))%N.

(** [sentence.split()]: the maximal runs of non-whitespace, scanned left to
    right; [tok] is the run being read. *)
Fixpoint split_from (tok : str) (s : str) : list str :=
  match s with
  | [] => if tok is [] then [] else [tok]
  | c :: s' =>
      if isspace c
      then (if tok is [] then split_from [] s' else tok :: split_from [] s')
      else split_from (tok ++ [c]) s'
  end.

Definition split (s : str) : list str := split_from [] s.

(** [sep.join(words)] *)
Fixpoint join (sep : str) (words : list str) : str :=
  match words with
  | [] => []
  | [w] => w
  | w :: ws => w ++ sep ++ join sep ws
  end.

(** A word: what [split] yields, non-empty and free of whitespace. *)
Definition is_word (w : str) : Prop := w ≠ [] ∧ Forall (λ c, isspace c = false) w.

#[export] Instance is_word_dec w : Decision (is_word w).
Proof. unfold is_word. apply _. Defined.

(** ** Exceptions *)

Inductive exn :=
  | IndexError
  | ValueError
  | EOFError
  | NotModelled.  (* syntax of [re] or [str.format] outside the fragment below *)

Inductive result (A : Type) :=
  | Ok (a : A)
  | Raise (e : exn).
Arguments Ok {A} a.
Arguments Raise {A} e.

#[export] Instance result_ret : MRet result := @Ok.
#[export] Instance result_bind : MBind result := λ A B f m,
  match m with Ok a => f a | Raise e => Raise e end.
#[export] Instance result_fmap : FMap result := λ A B f m,
  match m with Ok a => Ok (f a) | Raise e => Raise e end.

#[export] Instance exn_eq_dec : EqDecision exn.
Proof. solve_decision. Defined.

#[export] Instance result_eq_dec `{EqDecision A} : EqDecision (result A).
Proof. solve_decision. Defined.

(** ** The tables *)

(** [responses]: a dict whose insertion order is the rule priority, hence an
    association list. *)
Definition responses : list (str * list str) :=
  [ (py "i feel (.*)", [py "Why do you feel {}?"; py "How long have you felt {}?";
                        py "Do you think feeling {} is normal?"]);
    (py "why do you (.*)", [py "Why does it concern you that I {}?";
                            py "What makes you ask that?"]);
    (py "i'm (.*)", [py "How does being {} make you feel?"; py "Do you enjoy being {}?"]);
    (py "i (.*) you", [py "Why do you {} me?"; py "What makes you think you {} me?"]);
    (py "because (.*)", [py "Is that the real reason?"; py "What other reasons might there be?";
                         py "Does that reason explain everything?"]);
    (py "yes", [py "You seem quite sure."; py "I understand."]);
    (py "no", [py "Why not?"; py "Can you explain why?"]);
    (py "you are (.*)", [py "What makes you think I am {}?";
                         py "Does it please you to think that I am {}?"]);
    (py "i want (.*)", [py "Why do you want {}?"; py "What would it mean if you got {}?"]);
    (py "can you (.*)", [py "Why do you ask?"; py "Perhaps you believe I can {}?"]) ].

Definition reflections_items : list (str * str) :=
  [ (py "i am", py "you are");
    (py "i'm", py "you are");
    (py "i have", py "you have");
    (py "i was", py "you were");
    (py "i", py "you");
    (py "me", py "you");
    (py "my", py "your");
    (py "you are", py "I am");
    (py "you have", py "I have");
    (py "you were", py "I was") ].

Definition reflections : gmap str str := list_to_map reflections_items.

Definition default_responses : list str :=
  [ py "Tell me more.";
    py "Why do you say that?";
    py "How does that make you feel?";
    py "Can you elaborate?";
    py "That is very interesting." ].

(** ** reflect *)

(** [reflections.get(word, word)] *)
Definition get_or_self (d : gmap str str) (word : str) : str :=
  default word (d !! word).

Definition reflect_with (d : gmap str str) (sentence : str) : str :=
  let words := split (lower sentence) in
  join (py " ") (get_or_self d <$> words).

Definition reflect (sentence : str) : str := reflect_with reflections sentence.

(** The reflection table without its multi-word keys. *)
Definition single_token_reflections : gmap str str :=
  filter (λ kv, is_word kv.1) reflections.

(** What a word can be replaced by: a lowercase phrase of single-spaced words
    none of which is a key of the table. *)
Definition settled (u : str) : Prop :=
  lower u = u ∧ split u ≠ [] ∧ join (py " ") (split u) = u
  ∧ Forall (λ t, reflections !! t = None) (split u).

#[export] Instance settled_dec u : Decision (settled u).
Proof. unfold settled. apply _. Defined.

(** ** re.match(pattern, text, re.IGNORECASE)

    The patterns of [responses] are built from literal characters and the
    capturing group of a greedy dot-star only; [compile] accepts that
    fragment and nothing else. *)

Inductive node :=
  | Literal (c : ascii)
  | GroupAnyStar.

Definition is_special (c : ascii) : bool :=
  bool_decide (c ∈ py ".^$*+?{}[]\|()").

Fixpoint compile (p : str) : result (list node) :=
  match p with
  | [] => Ok []
  | c :: p' =>
      let literal :=
        if is_special c then Raise NotModelled
        else ns ← compile p'; Ok (Literal c :: ns) in
      match p' with
      | c2 :: c3 :: c4 :: p'' =>
          if bool_decide ([c; c2; c3; c4] = py "(.*)")
          then ns ← compile p''; Ok (GroupAnyStar :: ns)
          else literal
      | _ => literal
      end
  end.

(** The longest prefix a dot-star can take: the dot matches anything but a
    newline. *)
Fixpoint dot_run (s : str) : str :=
  match s with
  | [] => []
  | c :: s' => if bool_decide (c = "010") then [] else c :: dot_run s'
  end.

(** Greedy repetition with backtracking: try the group at length [n], then
    [n - 1], ... down to the empty group, [k] matching what follows. *)
Fixpoint try_lengths (k : str → option (list str)) (s : str) (n : nat)
    : option (list str) :=
  match k (drop n s) with
  | Some gs => Some (take n s :: gs)
  | None => match n with 0 => None | S n' => try_lengths k s n' end
  end.

(** Match at position 0; the text after the match is ignored.  The result is
    [match.groups()]. *)
Fixpoint match_nodes (ns : list node) (s : str) : option (list str) :=
  match ns with
  | [] => Some []
  | Literal c :: ns' =>
      match s with
      | a :: s' =>
          if bool_decide (lower_char a = lower_char c) then match_nodes ns' s' else None
      | [] => None
      end
  | GroupAnyStar :: ns' => try_lengths (match_nodes ns') s (length (dot_run s))
  end.

Definition re_match (pattern text : str) : result (option (list str)) :=
  ns ← compile pattern; Ok (match_nodes ns text).

(** ** template.format( *args )

    The fragment of [str.format] the templates use: the auto-numbered field
    [{}] and the doubled-brace escapes.  A field past the end of [args] is an
    IndexError; arguments that no field consumes are ignored. *)
Fixpoint format (template : str) (args : list str) : result str :=
  match template with
  | [] => Ok []
  | c :: t' =>
      if bool_decide (c = "{") then
        match t' with
        | [] => Raise ValueError
        | d :: t'' =>
            if bool_decide (d = "{") then cons "{" <$> format t'' args
            else if bool_decide (d = "}") then
              match args with
              | [] => Raise IndexError
              | a :: args' => app a <$> format t'' args'
              end
            else Raise NotModelled
        end
      else if bool_decide (c = "}") then
        match t' with
        | d :: t'' =>
            if bool_decide (d = "}") then cons "}" <$> format t'' args
            else Raise ValueError
        | [] => Raise ValueError
        end
      else cons c <$> format t' args
  end.

(** Number of [{}] fields of a template, read as [format] reads it. *)
Fixpoint placeholders (template : str) : nat :=
  match template with
  | [] => 0
  | c :: t' =>
      if bool_decide (c = "{") || bool_decide (c = "}") then
        match t' with
        | d :: t'' =>
            if bool_decide (c = "{") && bool_decide (d = "}")
            then S (placeholders t'')
            else placeholders t''
        | [] => 0
        end
      else placeholders t'
  end.

(** The templates [format] is modelled on: no stray brace, no field other
    than [{}]. *)
Fixpoint well_formed (template : str) : bool :=
  match template with
  | [] => true
  | c :: t' =>
      if bool_decide (c = "{") then
        match t' with
        | d :: t'' => (bool_decide (d = "{") || bool_decide (d = "}")) && well_formed t''
        | [] => false
        end
      else if bool_decide (c = "}") then
        match t' with
        | d :: t'' => bool_decide (d = "}") && well_formed t''
        | [] => false
        end
      else well_formed t'
  end.

(** Number of capture groups of a compiled pattern. *)
Fixpoint group_count (ns : list node) : nat :=
  match ns with
  | [] => 0
  | Literal _ :: ns' => group_count ns'
  | GroupAnyStar :: ns' => S (group_count ns')
  end.

(** ** random.choice(seq): [r] is the number the process-wide random source
    yields for this call. *)
Definition choice {A} (seq : list A) (r : nat) : result A :=
  match seq !! (r `mod` length seq) with
  | Some x => Ok x
  | None => Raise IndexError
  end.

(** ** One turn of the loop body, after the sentinel test *)

(** The [for pattern, phrases in responses.items()] loop: [Some response] when
    a rule matched (and the loop broke), [None] when [matched] stays False. *)
Fixpoint first_match (rules : list (str * list str)) (input_text : str) (r : nat)
    : result (option str) :=
  match rules with
  | [] => Ok None
  | (pattern, phrases) :: rules' =>
      m ← re_match pattern input_text;
      match m with
      | Some groups =>
          template ← choice phrases r;
          response ← format template (reflect <$> groups);
          Ok (Some response)
      | None => first_match rules' input_text r
      end
  end.

Definition respond_in (rules : list (str * list str)) (input_text : str) (r : nat)
    : result str :=
  m ← first_match rules input_text r;
  match m with
  | Some response => Ok response
  | None => choice default_responses r
  end.

Definition respond : str → nat → result str := respond_in responses.

(** ** Predicates on the rule table *)

(** A rule is in order when its pattern compiles, it has a template, and
    every template is in the fragment with no more fields than the pattern
    has groups. *)
Definition rule_ok (rule : str * list str) : bool :=
  match compile rule.1 with
  | Ok ns =>
      bool_decide (rule.2 ≠ [])
      && forallb (λ t, well_formed t && (placeholders t <=? group_count ns)%nat) rule.2
  | Raise _ => false
  end.

Definition no_match (input_text : str) (rule : str * list str) : Prop :=
  re_match rule.1 input_text = Ok None.


#[export] Instance no_match_dec s rule : Decision (no_match s rule).
Proof. unfold no_match. apply _. Defined.

(** Which rule answers, if any. *)
Inductive answered (rules : list (str * list str)) (s : str) (r : nat)
    : option str → Prop :=
  | by_fallback : Forall (no_match s) rules → answered rules s r None
  | by_rule pre pattern phrases post groups template reply :
      rules = pre ++ (pattern, phrases) :: post →
      Forall (no_match s) pre →
      re_match pattern s = Ok (Some groups) →
      template ∈ phrases → choice phrases r = Ok template →
      format template (reflect <$> groups) = Ok reply →
      answered rules s r (Some reply).

(** ** eliza_chat *)

Inductive event :=
  | Prompt (text : str)   (* written by [input] *)
  | PrintLine (line : str).

Record session := Session {
  status : result unit;    (* [Ok ()]: the loop was left by [break] *)
  unread : list str;       (* lines of the input stream not consumed *)
  draws : nat;             (* calls of [random.choice] so far *)
  stdout : list event }.

Definition sentinels : list str := [py "bye"; py "exit"; py "quit"].

Definition is_sentinel (input_text : str) : bool :=
  bool_decide (lower input_text ∈ sentinels).

(** The [while True] loop over the lines the input stream still holds; the
    [n]-th call of [random.choice] draws [rng n]. *)
Fixpoint chat_loop (rng : nat → nat) (lines : list str) (n : nat) (out : list event)
    : session :=
  match lines with
  | [] => Session (Raise EOFError) [] n (out ++ [Prompt (py "You: ")])
  | input_text :: rest =>
      let out := out ++ [Prompt (py "You: ")] in
      if is_sentinel input_text
      then Session (Ok ()) rest n
             (out ++ [PrintLine (py "Eliza: Goodbye! It was nice talking to you.")])
      else
        match respond input_text (rng n) with
        | Ok response =>
            chat_loop rng rest (S n) (out ++ [PrintLine (py "Eliza: " ++ response)])
        | Raise e => Session (Raise e) rest n out
        end
  end.

Definition eliza_chat (rng : nat → nat) (lines : list str) : session :=
  chat_loop rng lines 0 [PrintLine (py "Eliza: Hello, I'm Eliza. What's on your mind?")].

(** The literal characters a compiled pattern starts with, up to its
    first group. *)
Fixpoint literal_prefix (ns : list node) : str :=
  match ns with
  | Literal c :: ns' => c :: literal_prefix ns'
  | _ => []
  end.

Definition rule_prefix (rule : str * list str) : str :=
  match compile rule.1 with
  | Ok ns => literal_prefix ns
  | Raise _ => []
  end.

(** Two literal prefixes that one text can start with, up to letter case. *)
Definition compatible (l1 l2 : str) : Prop :=
  let m := length l1 `min` length l2 in
  lower (take m l1) = lower (take m l2).

#[export] Instance compatible_dec l1 l2 : Decision (compatible l1 l2).
Proof. unfold compatible. apply _. Defined.

(** * Properties *)

Ltac each_char c := destruct c as [[] [] [] [] [] [] [] []].

Ltac by_compute := apply (bool_decide_unpack _); vm_compute; reflexivity.

(** ** Characters *)

Lemma lower_char_idemp c : lower_char (lower_char c) = lower_char c.
Proof. each_char c; reflexivity. Qed.

Lemma lower_app s t : lower (s ++ t) = lower s ++ lower t.
Proof. apply fmap_app. Qed.

(** ** split and join *)

Lemma split_from_words tok s :
  Forall (λ c, isspace c = false) tok → Forall is_word (split_from tok s).
Proof.
  revert tok. induction s as [|c s IH]; intros tok Htok; simpl.
  - destruct tok; [constructor|]. constructor; [by split|constructor].
  - destruct (isspace c) eqn:Hc.
    + destruct tok; [by apply IH|].
      constructor; [by split|]. by apply IH.
    + apply IH. apply Forall_app. split; [done|]. by constructor.
Qed.

Lemma split_words s : Forall is_word (split s).
Proof. by apply split_from_words. Qed.

(** Every character of a word of [s] is a character of [s]. *)
Lemma split_from_chars (P : ascii → Prop) tok s :
  Forall P tok → Forall P s → Forall (Forall P) (split_from tok s).
Proof.
  revert tok. induction s as [|c s IH]; intros tok Htok Hs; simpl.
  - destruct tok; [constructor|]. constructor; [done|constructor].
  - inversion_clear Hs. destruct (isspace c).
    + destruct tok; [by apply IH|]. constructor; [done|]. by apply IH.
    + apply IH; [|done]. apply Forall_app. split; [done|]. by constructor.
Qed.

Lemma split_lower_words s : Forall (λ w, lower w = w) (split (lower s)).
Proof.
  assert (H : Forall (Forall (λ c, lower_char c = c)) (split (lower s))).
  { apply split_from_chars; [constructor|].
    apply Forall_fmap, Forall_true. intros c. apply lower_char_idemp. }
  eapply Forall_impl; [exact H|]. intros w Hw. simpl in Hw.
  induction Hw as [|c w Hc _ IH]; [done|]. unfold lower in *. rewrite fmap_cons. by f_equal.
Qed.

Lemma split_from_app_space tok a c b :
  isspace c = true →
  split_from tok (a ++ c :: b) = split_from tok a ++ split b.
Proof.
  intros Hc. revert tok. induction a as [|x a IH]; intros tok; simpl.
  - rewrite Hc. by destruct tok.
  - destruct (isspace x); [|by apply IH]. destruct tok; rewrite IH; done.
Qed.

Lemma split_from_word tok w :
  Forall (λ c, isspace c = false) w → tok ++ w ≠ [] →
  split_from tok w = [tok ++ w].
Proof.
  revert tok. induction w as [|c w IH]; intros tok Hw Hne; simpl.
  - rewrite app_nil_r in *. by destruct tok.
  - inversion_clear Hw as [|? ? Hc Hw']. rewrite Hc.
    rewrite IH; [|done|]; rewrite <- app_assoc; [done|]. by destruct tok.
Qed.

Lemma split_word w : is_word w → split w = [w].
Proof. intros [Hne Hw]. by apply (split_from_word []). Qed.

Lemma isspace_space : isspace " " = true.
Proof. reflexivity. Qed.

(** Splitting a joined list splits each piece. *)
Lemma split_join (l : list str) : split (join (py " ") l) = l ≫= split.
Proof.
  induction l as [|u l IH]; [done|].
  destruct l as [|u' l].
  - simpl. by rewrite app_nil_r.
  - change (join (py " ") (u :: u' :: l)) with (u ++ " " :: join (py " ") (u' :: l)).
    unfold split at 1. rewrite split_from_app_space by apply isspace_space.
    fold (split u). rewrite IH. done.
Qed.

Lemma join_app sep (l1 l2 : list str) :
  l1 ≠ [] → l2 ≠ [] → join sep (l1 ++ l2) = join sep l1 ++ sep ++ join sep l2.
Proof.
  intros H1 H2. induction l1 as [|u l1 IH]; [done|].
  destruct l1 as [|u' l1].
  - simpl. by destruct l2.
  - change (join sep ((u :: u' :: l1) ++ l2)) with (u ++ sep ++ join sep ((u' :: l1) ++ l2)).
    rewrite IH by done. simpl. by rewrite <- !app_assoc.
Qed.

Lemma lower_join (l : list str) :
  Forall (λ u, lower u = u) l → lower (join (py " ") l) = join (py " ") l.
Proof.
  induction 1 as [|u l Hu Hl IH]; [done|].
  destruct l as [|u' l]; [done|].
  change (join (py " ") (u :: u' :: l)) with (u ++ py " " ++ join (py " ") (u' :: l)).
  rewrite !lower_app, Hu, IH. done.
Qed.

(** ** reflect *)

Lemma get_or_self_single_token w :
  is_word w → get_or_self reflections w = get_or_self single_token_reflections w.
Proof.
  intros Hw. unfold get_or_self, single_token_reflections.
  destruct (reflections !! w) as [v|] eqn:E.
  - by rewrite (map_lookup_filter_Some_2 _ _ w v E Hw).
  - by rewrite (map_lookup_filter_None_2 _ reflections w (or_introl E)).
Qed.

Lemma reflect_single_token s : reflect s = reflect_with single_token_reflections s.
Proof.
  unfold reflect, reflect_with. f_equal.
  apply Forall_fmap_ext_1. eapply Forall_impl; [apply split_words|].
  intros w Hw. by apply get_or_self_single_token.
Qed.

Lemma reflections_items_settled :
  Forall (λ kv, is_word kv.1 → settled kv.2) reflections_items.
Proof. apply (bool_decide_unpack _). vm_compute. reflexivity. Qed.

Lemma get_or_self_settled w :
  is_word w → lower w = w → settled (get_or_self reflections w).
Proof.
  intros Hw Hl. unfold get_or_self.
  destruct (reflections !! w) as [v|] eqn:E; simpl.
  - apply elem_of_list_to_map_2 in E.
    by apply (proj1 (Forall_forall _ _) reflections_items_settled (w, v) E).
  - unfold settled. rewrite (split_word w Hw). repeat split; try done.
    by repeat constructor.
Qed.

Lemma reflect_pieces_settled s :
  Forall settled (get_or_self reflections <$> split (lower s)).
Proof.
  apply Forall_fmap.
  pose proof (split_words (lower s)) as Hw. pose proof (split_lower_words s) as Hl.
  induction Hw as [|w l Hw _ IH]; [constructor|].
  inversion_clear Hl. constructor; [by apply get_or_self_settled|by apply IH].
Qed.

(** Re-splitting settled pieces loses nothing. *)
Lemma join_bind_split (l : list str) :
  Forall settled l → join (py " ") (l ≫= split) = join (py " ") l.
Proof.
  induction 1 as [|u l (_ & Hne & Hj & _) Hl IH]; [done|].
  rewrite bind_cons. destruct l as [|u' l].
  - simpl. by rewrite app_nil_r.
  - rewrite join_app; [|done|].
    + rewrite IH, Hj. done.
    + inversion_clear Hl as [|? ? (_ & Hne' & _) _]. rewrite bind_cons.
      intros [? _]%app_eq_nil. done.
Qed.

Lemma bind_split_fixed (l : list str) :
  Forall settled l →
  get_or_self reflections <$> (l ≫= split) = l ≫= split.
Proof.
  induction 1 as [|u l (_ & _ & _ & Hk) Hl IH]; [done|].
  rewrite bind_cons, fmap_app, IH. f_equal.
  clear -Hk. induction Hk as [|t ts Ht _ IH]; [done|].
  rewrite fmap_cons, IH. unfold get_or_self at 1. by rewrite Ht.
Qed.

Lemma reflect_join_settled (l : list str) :
  Forall settled l → reflect (join (py " ") l) = join (py " ") l.
Proof.
  intros Hl. unfold reflect, reflect_with.
  rewrite lower_join by (eapply Forall_impl; [exact Hl|]; by intros u [? _]).
  rewrite split_join, bind_split_fixed by done. by apply join_bind_split.
Qed.

(** ** Regular expressions *)

Lemma try_lengths_Some k s n gs :
  try_lengths k s n = Some gs →
  ∃ m g, m ≤ n ∧ k (drop m s) = Some g ∧ gs = take m s :: g.
Proof.
  induction n as [|n IH]; simpl.
  - destruct (k (drop 0 s)) as [g|] eqn:E; [|done].
    intros [= <-]. exists 0, g. by rewrite E.
  - destruct (k (drop (S n) s)) as [g|] eqn:E.
    + intros [= <-]. exists (S n), g. by rewrite E.
    + intros (m & g & ? & ? & ?)%IH. exists m, g. split; [lia|done].
Qed.

(** A match yields one string per capture group of the pattern. *)
Lemma match_nodes_groups ns s gs :
  match_nodes ns s = Some gs → length gs = group_count ns.
Proof.
  revert s gs. induction ns as [|[c|] ns IH]; intros s gs; simpl.
  - by intros [= <-].
  - destruct s as [|a s]; [done|]. case_bool_decide; [apply IH|done].
  - intros (m & g & _ & Hg & ->)%try_lengths_Some. simpl. f_equal. by eapply IH.
Qed.

Lemma take_dot_run s : take (length (dot_run s)) s = dot_run s.
Proof.
  induction s as [|c s IH]; [done|]. simpl. case_bool_decide; [done|].
  simpl. by rewrite IH.
Qed.

(** A trailing group takes the rest of the line. *)
Lemma match_nodes_trailing_group s : match_nodes [GroupAnyStar] s = Some [dot_run s].
Proof.
  simpl. destruct (length (dot_run s)) eqn:E; simpl; by rewrite <- E, take_dot_run.
Qed.

(** Literals match a prefix of the text up to letter case. *)
Lemma match_nodes_literals l ns p s :
  lower p = lower l →
  match_nodes ((Literal <$> l) ++ ns) (p ++ s) = match_nodes ns s.
Proof.
  revert p. induction l as [|c l IH]; intros [|a p]; try done.
  unfold lower. rewrite !fmap_cons. intros [= Hc Hp]. simpl.
  rewrite bool_decide_true by done. by apply IH.
Qed.

Lemma match_nodes_only_literals l s :
  match_nodes (Literal <$> l) s =
  if bool_decide (lower (take (length l) s) = lower l) then Some [] else None.
Proof.
  revert s. induction l as [|c l IH]; intros s; [done|].
  destruct s as [|a s]; [done|]. unfold lower in *.
  rewrite !fmap_cons. cbn [match_nodes length take]. rewrite !fmap_cons, IH.
  repeat case_bool_decide; congruence.
Qed.

(** ** format *)

Lemma list_ind2 {A} (Q : list A → Prop) :
  Q [] → (∀ c, Q [c]) → (∀ c d t, Q t → Q (d :: t) → Q (c :: d :: t)) → ∀ t, Q t.
Proof.
  intros H0 H1 H2 t. cut (Q t ∧ ∀ c, Q (c :: t)); [tauto|].
  induction t as [|d t [IHt IHd]]; split; auto.
Qed.

Section plain_character.
Context (c : ascii) (Hopen : c ≠ "{") (Hclose : c ≠ "}").

Lemma format_plain t args : format (c :: t) args = cons c <$> format t args.
Proof. simpl. by rewrite !bool_decide_false. Qed.

Lemma well_formed_plain t : well_formed (c :: t) = well_formed t.
Proof. simpl. by rewrite !bool_decide_false. Qed.

Lemma placeholders_plain t : placeholders (c :: t) = placeholders t.
Proof. simpl. by rewrite !bool_decide_false. Qed.
End plain_character.

(** A template in the fragment formats without error as soon as it has no
    more fields than there are arguments. *)
Lemma format_ok template args :
  well_formed template → placeholders template ≤ length args →
  ∃ out, format template args = Ok out.
Proof.
  revert args. induction template as [|c|c d t IHt IHd] using list_ind2; intros args.
  - by exists [].
  - simpl. repeat case_bool_decide; try done. by exists [c].
  - destruct (decide (c = "{")) as [->|Hopen]; [|destruct (decide (c = "}")) as [->|Hclose]].
    + cbn [well_formed format placeholders].
      change (bool_decide ("{" = "{")) with true. cbn [orb andb].
      destruct (bool_decide (d = "{")) eqn:Hd1; cbn [orb andb].
      * destruct (bool_decide (d = "}")) eqn:Hd2.
        { apply bool_decide_eq_true in Hd1, Hd2. congruence. }
        intros Hwf Hn. destruct (IHt args Hwf Hn) as [out ->]. by eexists.
      * destruct (bool_decide (d = "}")) eqn:Hd2; [|done].
        intros Hwf Hn. destruct args as [|a args]; [simpl in Hn; lia|].
        destruct (IHt args Hwf) as [out ->]; [simpl in Hn; lia|]. by eexists.
    + cbn [well_formed format placeholders].
      change (bool_decide ("}" = "{")) with false.
      change (bool_decide ("}" = "}")) with true. cbn [orb andb].
      destruct (bool_decide (d = "}")) eqn:Hd; [|done]. cbn [andb].
      intros Hwf Hn. destruct (IHt args Hwf Hn) as [out ->]. by eexists.
    + rewrite format_plain, well_formed_plain, placeholders_plain by done.
      intros Hwf Hn. destruct (IHd args Hwf Hn) as [out ->]. by eexists.
Qed.

(** A template without a field yields the same text whatever the
    arguments: [format] ignores them. *)
Lemma format_no_field template args :
  well_formed template → placeholders template = 0 →
  format template args = format template [].
Proof.
  induction template as [|c|c d t IHt IHd] using list_ind2; [done| |].
  - simpl. by repeat case_bool_decide.
  - destruct (decide (c = "{")) as [->|Hopen]; [|destruct (decide (c = "}")) as [->|Hclose]].
    + cbn [well_formed format placeholders].
      change (bool_decide ("{" = "{")) with true. cbn [orb andb].
      destruct (bool_decide (d = "{")) eqn:Hd1; cbn [orb andb].
      * destruct (bool_decide (d = "}")) eqn:Hd2.
        { apply bool_decide_eq_true in Hd1, Hd2. congruence. }
        intros Hwf Hn. by rewrite IHt.
      * by destruct (bool_decide (d = "}")).
    + cbn [well_formed format placeholders].
      change (bool_decide ("}" = "{")) with false.
      change (bool_decide ("}" = "}")) with true. cbn [orb andb].
      destruct (bool_decide (d = "}")) eqn:Hd; [|done]. cbn [andb].
      intros Hwf Hn. by rewrite IHt.
    + rewrite (format_plain c Hopen Hclose _ args), (format_plain c Hopen Hclose _ []).
      rewrite well_formed_plain, placeholders_plain by done.
      intros Hwf Hn. by rewrite IHd.
Qed.

(** ** choice *)

Lemma choice_ok {A} (seq : list A) r :
  seq ≠ [] → ∃ x, x ∈ seq ∧ choice seq r = Ok x.
Proof.
  intros Hne. unfold choice.
  destruct (seq !! (r `mod` length seq)) as [x|] eqn:E.
  - exists x. split; [by eapply list_elem_of_lookup_2|done].
  - apply lookup_ge_None in E.
    assert (length seq ≠ 0) by (by destruct seq).
    pose proof (Nat.mod_upper_bound r (length seq)). lia.
Qed.

(** ** The rule table *)

Lemma responses_ok : Forall rule_ok responses.
Proof. apply (bool_decide_unpack _). vm_compute. reflexivity. Qed.

Lemma rule_ok_re_match rule s : rule_ok rule → ∃ m, re_match rule.1 s = Ok m.
Proof.
  unfold rule_ok, re_match. destruct (compile rule.1) as [ns|e]; [|done].
  intros _. by eexists.
Qed.

Lemma rule_ok_reply pattern phrases s groups r :
  rule_ok (pattern, phrases) → re_match pattern s = Ok (Some groups) →
  ∃ template reply, template ∈ phrases ∧ choice phrases r = Ok template
    ∧ format template (reflect <$> groups) = Ok reply.
Proof.
  unfold rule_ok, re_match. simpl. destruct (compile pattern) as [ns|e]; [|done].
  intros [Hne Hall]%andb_prop_elim [= Hm]. apply bool_decide_unpack in Hne.
  destruct (choice_ok phrases r Hne) as (template & Hin & Hch).
  apply Is_true_eq_true, forallb_forall with (x := template) in Hall;
    [|by apply list_elem_of_In].
  apply andb_prop in Hall as [Hwf Hn]. apply Nat.leb_le in Hn.
  destruct (format_ok template (reflect <$> groups)) as [reply Hf].
  - by apply Is_true_eq_left.
  - rewrite length_fmap, (match_nodes_groups _ _ _ Hm). done.
  - by exists template, reply.
Qed.

Lemma first_match_none rules s r :
  Forall (no_match s) rules → first_match rules s r = Ok None.
Proof.
  induction 1 as [|[pattern phrases] rules Hp _ IH]; [done|].
  simpl. unfold no_match in Hp. simpl in Hp. by rewrite Hp.
Qed.

(** The loop stops at the first rule that matches: the rules before it have
    been tried and failed, the rules after it are not looked at. *)
Lemma first_match_app pre pattern phrases post s groups r :
  Forall (no_match s) pre → re_match pattern s = Ok (Some groups) →
  first_match (pre ++ (pattern, phrases) :: post) s r =
  (template ← choice phrases r;
   response ← format template (reflect <$> groups);
   Ok (Some response)).
Proof.
  intros Hpre Hm. induction Hpre as [|[p ph] pre Hp _ IH].
  - simpl. by rewrite Hm.
  - simpl. unfold no_match in Hp. simpl in Hp. by rewrite Hp.
Qed.

Lemma first_match_total rules s r :
  Forall rule_ok rules → ∃ m, first_match rules s r = Ok m ∧ answered rules s r m.
Proof.
  induction 1 as [|[pattern phrases] rules Hok _ (m & IH & Ha)].
  - exists None. split; [done|]. by constructor.
  - destruct (rule_ok_re_match _ s Hok) as [[groups|] Hm]; simpl in Hm.
    + destruct (rule_ok_reply _ _ _ _ r Hok Hm) as (template & reply & Hin & Hch & Hf).
      exists (Some reply). split.
      * simpl. rewrite Hm. simpl. rewrite Hch. simpl. by rewrite Hf.
      * by eapply (by_rule _ _ _ []).
    + exists m. split; [simpl; by rewrite Hm|].
      destruct Ha as [Hnone|pre p ph post groups template reply -> Hpre].
      * constructor. by constructor.
      * eapply (by_rule _ _ _ ((pattern, phrases) :: pre)); eauto.
Qed.

Lemma respond_total s r :
  ∃ reply, respond s r = Ok reply
    ∧ (answered responses s r (Some reply)
       ∨ answered responses s r None ∧ reply ∈ default_responses).
Proof.
  destruct (first_match_total responses s r responses_ok) as ([reply|] & Hm & Ha).
  - exists reply. unfold respond, respond_in. rewrite Hm. auto.
  - destruct (choice_ok default_responses r) as (reply & Hin & Hch); [done|].
    exists reply. unfold respond, respond_in. rewrite Hm. simpl. auto.
Qed.

(** ** respond and the session *)

Lemma respond_by_rule pre pattern phrases post s groups r :
  Forall (no_match s) pre → re_match pattern s = Ok (Some groups) →
  respond_in (pre ++ (pattern, phrases) :: post) s r =
  (template ← choice phrases r; format template (reflect <$> groups)).
Proof.
  intros Hpre Hm. unfold respond_in. rewrite (first_match_app _ _ _ _ _ groups) by done.
  destruct (choice phrases r) as [t|e]; [simpl|done].
  by destruct (format t (reflect <$> groups)).
Qed.

Lemma choice_format phrases args r :
  phrases ≠ [] →
  ∃ t, t ∈ phrases ∧ (template ← choice phrases r; format template args) = format t args.
Proof.
  intros Hne. destruct (choice_ok phrases r Hne) as (t & Hin & Hch).
  exists t. by rewrite Hch.
Qed.

Lemma re_match_compiled pattern ns s :
  compile pattern = Ok ns → re_match pattern s = Ok (match_nodes ns s).
Proof. unfold re_match. by intros ->. Qed.

Lemma i_feel_match p X :
  lower p = py "i feel " → re_match (py "i feel (.*)") (p ++ X) = Ok (Some [dot_run X]).
Proof.
  intros Hp.
  rewrite (re_match_compiled _ ((Literal <$> py "i feel ") ++ [GroupAnyStar]))
    by reflexivity.
  rewrite match_nodes_literals by done. by rewrite match_nodes_trailing_group.
Qed.

Lemma chat_loop_status rng lines n out :
  status (chat_loop rng lines n out) = Ok ()
  ∨ status (chat_loop rng lines n out) = Raise EOFError.
Proof.
  revert n out. induction lines as [|input_text rest IH]; intros n out; simpl; [by right|].
  destruct (is_sentinel input_text); [by left|].
  destruct (respond_total input_text (rng n)) as (reply & -> & _). apply IH.
Qed.

(** Lines that are not sentinels are answered, one draw each, and the loop
    goes on with what follows. *)
Lemma chat_loop_before rng before n out :
  Forall (λ x, is_sentinel x = false) before →
  ∃ out', ∀ lines,
    chat_loop rng (before ++ lines) n out = chat_loop rng lines (n + length before) out'.
Proof.
  intros Hb. revert n out. induction Hb as [|x before Hx _ IH]; intros n out.
  - exists out. intros lines. simpl. by rewrite Nat.add_0_r.
  - destruct (respond_total x (rng n)) as (reply & Hr & _).
    destruct (IH (S n) ((out ++ [Prompt (py "You: ")]) ++ [PrintLine (py "Eliza: " ++ reply)]))
      as [out' Hout'].
    exists out'. intros lines. simpl. rewrite Hx, Hr, Hout'. f_equal. lia.
Qed.

(** * The claims *)

(** C6. [reflect] looks words up one at a time: it is the join, with single
    spaces, of the words of the lowercased sentence, each replaced by its
    entry in the table when it is a key and kept otherwise.  A word has no
    whitespace, so the multi-word keys never apply: the table restricted to
    its single-word keys gives the same function.  reflect("i") = "you",
    reflect("my") = "your", reflect("i am") = "you am" and not "you are". *)
Theorem reflect_single_token_lookup :
  (∀ s, reflect s =
        join (py " ")
          ((λ w, match reflections !! w with Some v => v | None => w end)
             <$> split (lower s)))
  ∧ (∀ s, Forall is_word (split (lower s)))
  ∧ (∀ s, reflect s = reflect_with single_token_reflections s)
  ∧ (∀ k v, single_token_reflections !! k = Some v ↔
            (k, v) ∈ [(py "i'm", py "you are"); (py "i", py "you");
                      (py "me", py "you"); (py "my", py "your")])
  ∧ reflect (py "i") = py "you"
  ∧ reflect (py "my") = py "your"
  ∧ reflect (py "i am") = py "you am"
  ∧ reflect (py "i am") ≠ py "you are".
Proof.
  split; [done|]. split; [intros s; apply split_words|].
  split; [apply reflect_single_token|]. split; [|by vm_compute].
  intros k v. unfold single_token_reflections.
  rewrite map_lookup_filter_Some. unfold reflections.
  rewrite <- elem_of_list_to_map by by_compute. simpl. split.
  - intros [Hin Hw]. unfold reflections_items in Hin.
    repeat (apply elem_of_cons in Hin as [[= -> ->]|Hin];
            [first [ by (exfalso; revert Hw; apply (bool_decide_eq_false_1 _); vm_compute)
                   | by_compute ]|]).
    by apply elem_of_nil in Hin.
  - intros Hin.
    repeat (apply elem_of_cons in Hin as [[= -> ->]|Hin];
            [split; by_compute|]).
    by apply elem_of_nil in Hin.
Qed.

(** C10. [reflect] is idempotent: reflect(reflect(s)) = reflect(s) for every
    string s. *)
Theorem reflect_idempotent s : reflect (reflect s) = reflect s.
Proof.
  unfold reflect at 2 3. unfold reflect_with.
  apply reflect_join_settled, reflect_pieces_settled.
Qed.

(** C1, as stated, fails: the rule "because ..." captures one group and its
    template "Is that the real reason?" has no placeholder; [format] drops the
    captured text without a word. *)
Lemma responses_placeholder_mismatch :
  ¬ (∀ pattern phrases template ns,
       (pattern, phrases) ∈ responses → template ∈ phrases →
       compile pattern = Ok ns → placeholders template = group_count ns)
  ∧ re_match (py "because (.*)") (py "because i said so") = Ok (Some [py "i said so"])
  ∧ respond (py "because i said so") 0 = Ok (py "Is that the real reason?").
Proof.
  split; [|by vm_compute]. intros H.
  specialize (H (py "because (.*)")
                [py "Is that the real reason?"; py "What other reasons might there be?";
                 py "Does that reason explain everything?"]
                (py "Is that the real reason?")
                ((Literal <$> py "because ") ++ [GroupAnyStar])).
  assert (0 = 1) as [=]. apply H; [by_compute|by_compute|reflexivity].
Qed.

(** C1, amended. For every rule of the table and every template of the rule,
    the pattern compiles and the template has at most as many placeholders as
    the pattern has capture groups, so that substitution of the captured
    groups never lacks an argument: [format] succeeds on any argument list of
    that length.  A template without a placeholder ignores the captured
    groups. *)
Theorem responses_placeholders_le_groups pattern phrases template :
  (pattern, phrases) ∈ responses → template ∈ phrases →
  ∃ ns, compile pattern = Ok ns
    ∧ placeholders template ≤ group_count ns
    ∧ (∀ args, length args = group_count ns → ∃ out, format template args = Ok out)
    ∧ (placeholders template = 0 → ∀ args, format template args = format template []).
Proof.
  intros Hrule Hin.
  pose proof (proj1 (Forall_forall _ _) responses_ok _ Hrule) as Hok.
  unfold rule_ok in Hok. simpl in Hok.
  destruct (compile pattern) as [ns|e]; [|done]. exists ns. split; [done|].
  apply andb_prop_elim in Hok as [_ Hall].
  apply Is_true_eq_true, forallb_forall with (x := template) in Hall;
    [|by apply list_elem_of_In].
  apply andb_prop in Hall as [Hwf Hn]. apply Nat.leb_le in Hn.
  apply Is_true_eq_left in Hwf. split; [done|]. split.
  - intros args Hlen. apply format_ok; [done|lia].
  - intros H0 args. by apply format_no_field.
Qed.

Lemma responses_placeholders_le_groups_witness :
  ∃ ns, compile (py "can you (.*)") = Ok ns
    ∧ placeholders (py "Why do you ask?") ≤ group_count ns
    ∧ (∀ args, length args = group_count ns →
         ∃ out, format (py "Why do you ask?") args = Ok out)
    ∧ (placeholders (py "Why do you ask?") = 0 →
       ∀ args, format (py "Why do you ask?") args = format (py "Why do you ask?") []).
Proof.
  apply (responses_placeholders_le_groups (py "can you (.*)")
           [py "Why do you ask?"; py "Perhaps you believe I can {}?"]
           (py "Why do you ask?")); by_compute.
Defined.

(** C2, as stated, fails: "yes please" does match rule 6, although the line
    is not the literal, and rule 6 answers it. *)
Lemma yes_please_matches_yes :
  re_match (py "yes") (py "yes please") = Ok (Some [])
  ∧ lower (py "yes please") ≠ py "yes"
  ∧ respond (py "yes please") 0 = Ok (py "You seem quite sure.")
  ∧ respond (py "yes please") 1 = Ok (py "I understand.").
Proof. by vm_compute. Qed.

(** C2, amended. The rules "yes" and "no" are literals matched at the start
    of the line: an input line matches "yes" (resp. "no") exactly when its
    first three (resp. two) characters are the literal, case-insensitively,
    whatever follows.  The exact input "yes" matches, and so does
    "yes please". *)
Theorem literal_rules_match_prefix :
  (∀ s, re_match (py "yes") s = Ok (Some []) ↔ lower (take 3 s) = py "yes")
  ∧ (∀ s, re_match (py "no") s = Ok (Some []) ↔ lower (take 2 s) = py "no")
  ∧ (∀ s, re_match (py "yes") s ≠ Ok None ↔ lower (take 3 s) = py "yes")
  ∧ (∀ s, re_match (py "no") s ≠ Ok None ↔ lower (take 2 s) = py "no")
  ∧ re_match (py "yes") (py "yes") = Ok (Some [])
  ∧ re_match (py "yes") (py "yes please") = Ok (Some []).
Proof.
  assert (Hyes : ∀ s, re_match (py "yes") s =
            Ok (if bool_decide (lower (take 3 s) = py "yes") then Some [] else None)).
  { intros s. apply (f_equal Ok (match_nodes_only_literals (py "yes") s)). }
  assert (Hno : ∀ s, re_match (py "no") s =
            Ok (if bool_decide (lower (take 2 s) = py "no") then Some [] else None)).
  { intros s. apply (f_equal Ok (match_nodes_only_literals (py "no") s)). }
  split; [|split; [|split; [|split; [|split; reflexivity]]]]; intros s.
  all: first [ rewrite Hyes | rewrite Hno ]; case_bool_decide; naive_solver.
Qed.

(** C3. "yesterday" is matched by no rule before rule 6 and is matched by
    rule 6 ("yes"), the match being anchored at the start only; the reply is
    one of that rule's two templates. *)
Theorem yesterday_matches_yes :
  Forall (no_match (py "yesterday")) (take 5 responses)
  ∧ responses !! 5 = Some (py "yes", [py "You seem quite sure."; py "I understand."])
  ∧ re_match (py "yes") (py "yesterday") = Ok (Some [])
  ∧ ∀ r, respond (py "yesterday") r = Ok (py "You seem quite sure.")
       ∨ respond (py "yesterday") r = Ok (py "I understand.").
Proof.
  split; [by_compute|]. split; [done|]. split; [by vm_compute|]. intros r.
  unfold respond, respond_in.
  change responses with (take 5 responses ++
    (py "yes", [py "You seem quite sure."; py "I understand."]) :: drop 6 responses).
  rewrite (first_match_app _ _ _ _ _ []); [|by_compute|by vm_compute].
  destruct (choice_ok [py "You seem quite sure."; py "I understand."] r)
    as (t & Hin & ->); [done|].
  apply elem_of_cons in Hin as [->|Hin]; [by left|].
  apply elem_of_cons in Hin as [->|Hin]; [by right|].
  by apply elem_of_nil in Hin.
Qed.

(** C4. First match wins: when a rule matches the input and no rule declared
    before it does, the reply is built from that rule alone, its groups and
    its templates, and is the same whatever rules follow it in the table.
    "why do you ask" is answered by rule 2, and "i want you", which both
    rule 4 and rule 9 match, is answered by rule 4. *)
Theorem first_match_wins :
  (∀ pre pattern phrases post s groups r,
     responses = pre ++ (pattern, phrases) :: post →
     Forall (no_match s) pre →
     re_match pattern s = Ok (Some groups) →
     respond s r = (template ← choice phrases r; format template (reflect <$> groups))
     ∧ ∀ post', respond_in (pre ++ (pattern, phrases) :: post') s r = respond s r)
  ∧ (∀ r, respond (py "why do you ask") r = Ok (py "Why does it concern you that I ask?")
        ∨ respond (py "why do you ask") r = Ok (py "What makes you ask that?"))
  ∧ re_match (py "i (.*) you") (py "i want you") = Ok (Some [py "want"])
  ∧ re_match (py "i want (.*)") (py "i want you") = Ok (Some [py "you"])
  ∧ (∀ r, respond (py "i want you") r = Ok (py "Why do you want me?")
        ∨ respond (py "i want you") r = Ok (py "What makes you think you want me?")).
Proof.
  split; [|split; [|split; [by vm_compute|split; [by vm_compute|]]]].
  - intros pre pattern phrases post s groups r Heq Hpre Hm.
    unfold respond. rewrite Heq. split; [by apply respond_by_rule|].
    intros post'. by rewrite !(respond_by_rule _ _ _ _ _ groups).
  - intros r. unfold respond.
    change responses with (take 1 responses ++
      (py "why do you (.*)", [py "Why does it concern you that I {}?";
                              py "What makes you ask that?"]) :: drop 2 responses).
    rewrite (respond_by_rule _ _ _ _ _ [py "ask"]); [|by_compute|by vm_compute].
    destruct (choice_format [py "Why does it concern you that I {}?";
                             py "What makes you ask that?"] (reflect <$> [py "ask"]) r)
      as (t & Hin & ->); [done|].
    apply elem_of_cons in Hin as [->|Hin]; [by left|].
    apply elem_of_cons in Hin as [->|Hin]; [by right|].
    by apply elem_of_nil in Hin.
  - intros r. unfold respond.
    change responses with (take 3 responses ++
      (py "i (.*) you", [py "Why do you {} me?"; py "What makes you think you {} me?"])
      :: drop 4 responses).
    rewrite (respond_by_rule _ _ _ _ _ [py "want"]); [|by_compute|by vm_compute].
    destruct (choice_format [py "Why do you {} me?"; py "What makes you think you {} me?"]
                (reflect <$> [py "want"]) r) as (t & Hin & ->); [done|].
    apply elem_of_cons in Hin as [->|Hin]; [by left|].
    apply elem_of_cons in Hin as [->|Hin]; [by right|].
    by apply elem_of_nil in Hin.
Qed.

Lemma first_match_wins_witness :
  respond (py "I want you") 0 =
    (template ← choice [py "Why do you {} me?"; py "What makes you think you {} me?"] 0;
     format template (reflect <$> [py "want"]))
  ∧ ∀ post',
      respond_in (take 3 responses ++
                  (py "i (.*) you", [py "Why do you {} me?";
                                     py "What makes you think you {} me?"]) :: post')
        (py "I want you") 0
      = respond (py "I want you") 0.
Proof.
  apply (proj1 first_match_wins (take 3 responses) (py "i (.*) you")
           [py "Why do you {} me?"; py "What makes you think you {} me?"]
           (drop 4 responses) (py "I want you") [py "want"] 0).
  - reflexivity.
  - by_compute.
  - vm_compute. reflexivity.
Defined.

(** C5. For every input line that matches the first rule, "i feel" followed
    by a remainder X (in any letter case; X empty or not), the reply is one
    of exactly three: the three templates of rule 1 with reflect(X) in place
    of the placeholder.  Each of the three is the reply for some draw. *)
Theorem i_feel_replies s X r :
  re_match (py "i feel (.*)") s = Ok (Some [X]) →
  let replies := [py "Why do you feel " ++ reflect X ++ py "?";
                  py "How long have you felt " ++ reflect X ++ py "?";
                  py "Do you think feeling " ++ reflect X ++ py " is normal?"] in
  (∃ reply, reply ∈ replies ∧ respond s r = Ok reply)
  ∧ (∀ reply, reply ∈ replies → ∃ r', respond s r' = Ok reply).
Proof.
  intros Hm replies. subst replies.
  assert (Hr : ∀ r', respond s r' =
    (template ← choice [py "Why do you feel {}?"; py "How long have you felt {}?";
                        py "Do you think feeling {} is normal?"] r';
     format template (reflect <$> [X]))).
  { intros r'. by apply (respond_by_rule [] _ _ (drop 1 responses)). }
  rewrite fmap_cons, fmap_nil in Hr. revert Hr. generalize (reflect X). intros u Hr.
  split.
  - rewrite Hr.
    destruct (choice_format [py "Why do you feel {}?"; py "How long have you felt {}?";
                             py "Do you think feeling {} is normal?"] [u] r)
      as (t & Hin & ->); [done|].
    repeat (apply elem_of_cons in Hin as [->|Hin];
            [eexists; split; [|reflexivity]; set_solver|]).
    by apply elem_of_nil in Hin.
  - intros reply Hin.
    apply elem_of_cons in Hin as [->|Hin]; [exists 0; by rewrite Hr|].
    apply elem_of_cons in Hin as [->|Hin]; [exists 1; by rewrite Hr|].
    apply elem_of_cons in Hin as [->|Hin]; [exists 2; by rewrite Hr|].
    by apply elem_of_nil in Hin.
Qed.

Lemma i_feel_replies_witness :
  (∃ reply, reply ∈ [py "Why do you feel sad?"; py "How long have you felt sad?";
                     py "Do you think feeling sad is normal?"]
            ∧ respond (py "I feel sad") 4 = Ok reply)
  ∧ (∀ reply, reply ∈ [py "Why do you feel sad?"; py "How long have you felt sad?";
                       py "Do you think feeling sad is normal?"] →
              ∃ r', respond (py "I feel sad") r' = Ok reply).
Proof.
  exact (i_feel_replies (py "I feel sad") (py "sad") 4 (i_feel_match (py "I feel ") (py "sad") eq_refl)).
Defined.

(** C7. For every input line that no rule matches, the reply is the element
    of [default_responses] the draw selects, as it stands: one of the five
    fallback strings.  "qwerty zzz" is such a line. *)
Theorem fallback_when_unmatched s r :
  Forall (no_match s) responses →
  respond s r = choice default_responses r
  ∧ ∃ d, d ∈ [py "Tell me more."; py "Why do you say that?";
              py "How does that make you feel?"; py "Can you elaborate?";
              py "That is very interesting."]
         ∧ respond s r = Ok d.
Proof.
  intros Hnone. unfold respond, respond_in. rewrite first_match_none by done.
  split; [done|]. by apply (choice_ok default_responses r).
Qed.

Lemma fallback_when_unmatched_witness :
  respond (py "qwerty zzz") 7 = choice default_responses 7
  ∧ ∃ d, d ∈ [py "Tell me more."; py "Why do you say that?";
              py "How does that make you feel?"; py "Can you elaborate?";
              py "That is very interesting."]
         ∧ respond (py "qwerty zzz") 7 = Ok d.
Proof. apply (fallback_when_unmatched (py "qwerty zzz") 7). by_compute. Defined.

(** C8. The response path is total: for every input string and every draw,
    [respond] returns a reply and raises nothing; the reply is either the
    formatted template of the first rule that matches or, when none
    matches, a fallback string.  So for the empty line and for a line of
    punctuation.  A session ends by the sentinel or at the end of the input
    stream, never by an exception of a turn. *)
Theorem respond_never_raises :
  (∀ s r, ∃ reply, respond s r = Ok reply
     ∧ (answered responses s r (Some reply)
        ∨ answered responses s r None ∧ reply ∈ default_responses))
  ∧ (∀ rng lines, status (eliza_chat rng lines) = Ok ()
                  ∨ status (eliza_chat rng lines) = Raise EOFError)
  ∧ respond (py "") 0 = Ok (py "Tell me more.")
  ∧ respond (py "?!...") 0 = Ok (py "Tell me more.").
Proof.
  split; [apply respond_total|]. split; [|by vm_compute].
  intros rng lines. apply chat_loop_status.
Qed.

(** C9. For every input line whose lowercase form is "bye", "exit" or "quit",
    the loop prints the farewell and stops there: no draw is made, no reply
    of a rule or of the fallback set is printed, the lines that follow are
    not read.  After any lines that are not sentinels, the session is the
    session of those lines with the farewell in place of the next read. *)
Theorem sentinel_ends_session rng input_text rest :
  lower input_text ∈ [py "bye"; py "exit"; py "quit"] →
  (∀ n out,
     chat_loop rng (input_text :: rest) n out =
     Session (Ok ()) rest n
       (out ++ [Prompt (py "You: ");
                PrintLine (py "Eliza: Goodbye! It was nice talking to you.")]))
  ∧ (∀ before, Forall (λ x, is_sentinel x = false) before →
     eliza_chat rng (before ++ input_text :: rest) =
     Session (Ok ()) rest (draws (eliza_chat rng before))
       (stdout (eliza_chat rng before)
        ++ [PrintLine (py "Eliza: Goodbye! It was nice talking to you.")])).
Proof.
  intros Hs.
  assert (Hloop : ∀ n out,
     chat_loop rng (input_text :: rest) n out =
     Session (Ok ()) rest n
       (out ++ [Prompt (py "You: ");
                PrintLine (py "Eliza: Goodbye! It was nice talking to you.")])).
  { intros n out. simpl. unfold is_sentinel. rewrite bool_decide_true by done.
    by rewrite <- app_assoc. }
  split; [done|]. intros before Hb. unfold eliza_chat.
  generalize [PrintLine (py "Eliza: Hello, I'm Eliza. What's on your mind?")]. intros out.
  destruct (chat_loop_before rng before 0 out Hb) as [out' Hout'].
  pose proof (Hout' []) as Hnil. rewrite app_nil_r in Hnil.
  rewrite Hout', Hloop, Hnil. simpl. by rewrite <- app_assoc.
Qed.

Lemma sentinel_ends_session_witness :
  (∀ n out,
     chat_loop (λ n, n) [py "QuIt"; py "i feel sad"] n out =
     Session (Ok ()) [py "i feel sad"] n
       (out ++ [Prompt (py "You: ");
                PrintLine (py "Eliza: Goodbye! It was nice talking to you.")]))
  ∧ (∀ before, Forall (λ x, is_sentinel x = false) before →
     eliza_chat (λ n, n) (before ++ [py "QuIt"; py "i feel sad"]) =
     Session (Ok ()) [py "i feel sad"] (draws (eliza_chat (λ n, n) before))
       (stdout (eliza_chat (λ n, n) before)
        ++ [PrintLine (py "Eliza: Goodbye! It was nice talking to you.")])).
Proof. apply (sentinel_ends_session (λ n, n) (py "QuIt") [py "i feel sad"]). by_compute. Defined.

(** * Further properties *)

(** ** reflect: edge cases, normal form, composition *)

Lemma isspace_lower_char c : isspace (lower_char c) = isspace c.
Proof. each_char c; reflexivity. Qed.

Lemma lower_idemp s : lower (lower s) = lower s.
Proof.
  unfold lower. rewrite <- list_fmap_compose. apply list_fmap_ext.
  intros _ c _. apply lower_char_idemp.
Qed.

Lemma split_from_lower tok s :
  split_from (lower tok) (lower s) = lower <$> split_from tok s.
Proof.
  revert tok. induction s as [|c s IH]; intros tok.
  - by destruct tok.
  - unfold lower at 2. rewrite fmap_cons. fold (lower s). simpl.
    rewrite isspace_lower_char. destruct (isspace c).
    + destruct tok; simpl; [apply (IH [])|]. f_equal. apply (IH []).
    + rewrite <- IH. by rewrite lower_app.
Qed.

Lemma split_lower s : split (lower s) = lower <$> split s.
Proof. apply (split_from_lower []). Qed.

Lemma split_from_nil tok s :
  split_from tok s = [] ↔ tok = [] ∧ Forall (λ c, isspace c = true) s.
Proof.
  revert tok. induction s as [|c s IH]; intros tok; simpl.
  - destruct tok; split; try done; [by intros [? _]].
  - destruct (isspace c) eqn:Hc.
    + destruct tok.
      * rewrite IH, Forall_cons. tauto.
      * split; [done|]. by intros [? _].
    + rewrite IH, Forall_cons. split.
      * by intros [[? ?]%app_eq_nil _].
      * intros [_ [? _]]. congruence.
Qed.

Lemma join_nil_inv sep (l : list str) :
  Forall (λ u, u ≠ []) l → join sep l = [] → l = [].
Proof.
  destruct 1 as [|u l Hu _]; [done|]. destruct l; simpl; [done|].
  by intros [? _]%app_eq_nil.
Qed.

Lemma settled_nonempty u : settled u → u ≠ [].
Proof. intros (_ & Hne & _) ->. by apply Hne. Qed.

Lemma Forall_bind_split (P : str → Prop) (l : list str) :
  Forall (λ u, Forall P (split u)) l → Forall P (l ≫= split).
Proof.
  induction 1 as [|u l Hu _ IH]; [constructor|].
  rewrite bind_cons. by apply Forall_app.
Qed.

(** The words of [reflect s], read off the words of [s]. *)
Lemma split_reflect s :
  split (reflect s) = (get_or_self reflections <$> split (lower s)) ≫= split.
Proof. unfold reflect, reflect_with. apply split_join. Qed.

Lemma reflect_lowercase s : lower (reflect s) = reflect s.
Proof.
  unfold reflect, reflect_with. apply lower_join.
  eapply Forall_impl; [apply reflect_pieces_settled|]. by intros u [? _].
Qed.

Lemma reflect_normal s : join (py " ") (split (reflect s)) = reflect s.
Proof.
  rewrite split_reflect. unfold reflect, reflect_with.
  apply join_bind_split, reflect_pieces_settled.
Qed.

Lemma reflect_words_not_keys s :
  Forall (λ w, reflections !! w = None) (split (reflect s)).
Proof.
  rewrite split_reflect. apply Forall_bind_split.
  eapply Forall_impl; [apply reflect_pieces_settled|]. by intros u (_ & _ & _ & ?).
Qed.

Lemma reflect_of_words s :
  Forall (λ w, reflections !! w = None) (split (lower s)) →
  reflect s = join (py " ") (split (lower s)).
Proof.
  intros Hk. unfold reflect, reflect_with. f_equal.
  induction Hk as [|w l Hw _ IH]; [done|].
  rewrite fmap_cons, IH. unfold get_or_self. by rewrite Hw.
Qed.

(** X1. [reflect] returns the empty string exactly on the strings that
    hold nothing but whitespace, the empty string among them. *)
Theorem reflect_empty_iff s :
  reflect s = [] ↔ Forall (λ c, isspace c = true) s.
Proof.
  assert (Hs : split (lower s) = [] ↔ Forall (λ c, isspace c = true) s).
  { rewrite split_lower. unfold split.
    pose proof (split_from_nil [] s) as Hn.
    destruct (split_from [] s); simpl; [tauto|]. split; [done|].
    intros H. discriminate (proj2 Hn (conj eq_refl H)). }
  rewrite <- Hs. unfold reflect, reflect_with. split.
  - intros Hj. apply join_nil_inv in Hj.
    + by apply fmap_nil_inv in Hj.
    + eapply Forall_impl; [apply reflect_pieces_settled|]. apply settled_nonempty.
  - by intros ->.
Qed.

(** X2. [reflect] ignores the letter case of its argument, and what it
    returns is all lowercase: the capitalised values of the table ("I am",
    "I have", "I was") never come out. *)
Theorem reflect_case_insensitive s :
  reflect (lower s) = reflect s ∧ lower (reflect s) = reflect s.
Proof.
  split; [|apply reflect_lowercase].
  unfold reflect, reflect_with. by rewrite lower_idemp.
Qed.

(** X3. What [reflect] returns is in normal form: its words are separated
    by single spaces with nothing before or after, and no word of it is a
    key of the table; the words "i", "i'm", "me" and "my" never come out. *)
Theorem reflect_output_normal s :
  join (py " ") (split (reflect s)) = reflect s
  ∧ Forall (λ w, reflections !! w = None
               ∧ w ∉ [py "i"; py "i'm"; py "me"; py "my"])
      (split (reflect s)).
Proof.
  split; [apply reflect_normal|].
  eapply Forall_impl; [apply reflect_words_not_keys|].
  intros w Hw. split; [done|]. intros Hin.
  repeat (apply elem_of_cons in Hin as [->|Hin]; [by vm_compute in Hw|]).
  by apply elem_of_nil in Hin.
Qed.

(** X4. The fixed points of [reflect] are the strings in that normal form:
    reflect(s) = s exactly when s is lowercase, is its words joined by
    single spaces, and has no word that is a key of the table. *)
Theorem reflect_fixed_point_iff s :
  reflect s = s ↔
  lower s = s ∧ join (py " ") (split s) = s
  ∧ Forall (λ w, reflections !! w = None) (split s).
Proof.
  split.
  - intros H. rewrite <- H. split; [apply reflect_lowercase|].
    split; [apply reflect_normal|apply reflect_words_not_keys].
  - intros (Hl & Hj & Hk). rewrite reflect_of_words; rewrite Hl; done.
Qed.

Lemma split_app_space a c b :
  isspace c = true → split (a ++ c :: b) = split a ++ split b.
Proof. apply split_from_app_space. Qed.

Lemma reflect_words_app a c b :
  isspace c = true →
  reflect (a ++ c :: b) =
  join (py " ") ((get_or_self reflections <$> split (lower a))
                 ++ (get_or_self reflections <$> split (lower b))).
Proof.
  intros Hc. unfold reflect, reflect_with.
  rewrite lower_app. unfold lower at 2. rewrite fmap_cons. fold (lower b).
  rewrite split_app_space by (by rewrite isspace_lower_char).
  by rewrite fmap_app.
Qed.

(** X5. [reflect] works phrase by phrase: across a whitespace character it
    is the reflection of what comes before, a single space, and the
    reflection of what comes after; a side without any word contributes
    nothing, not even the space. *)
Theorem reflect_app a c b :
  isspace c = true →
  (split a ≠ [] → split b ≠ [] →
   reflect (a ++ c :: b) = reflect a ++ py " " ++ reflect b)
  ∧ (split a = [] → reflect (a ++ c :: b) = reflect b)
  ∧ (split b = [] → reflect (a ++ c :: b) = reflect a).
Proof.
  intros Hc. rewrite reflect_words_app by done.
  split; [|split].
  - intros Ha Hb. apply join_app.
    + rewrite split_lower. by destruct (split a).
    + rewrite split_lower. by destruct (split b).
  - intros Ha. rewrite (split_lower a), Ha. done.
  - intros Hb. rewrite (split_lower b), Hb. simpl. by rewrite app_nil_r.
Qed.

Lemma reflect_app_witness :
  (split (py "I am") ≠ [] → split (py "MY own boss") ≠ [] →
   reflect (py "I am" ++ "009" :: py "MY own boss")
   = reflect (py "I am") ++ py " " ++ reflect (py "MY own boss"))
  ∧ (split (py "I am") = [] →
     reflect (py "I am" ++ "009" :: py "MY own boss") = reflect (py "MY own boss"))
  ∧ (split (py "MY own boss") = [] →
     reflect (py "I am" ++ "009" :: py "MY own boss") = reflect (py "I am")).
Proof. apply (reflect_app (py "I am") "009" (py "MY own boss")). reflexivity. Defined.

Lemma reflections_items_words :
  Forall (λ kv, is_word kv.1 → 1 ≤ length (split kv.2) ≤ 2) reflections_items.
Proof. apply (bool_decide_unpack _). vm_compute. reflexivity. Qed.

Lemma get_or_self_words w :
  is_word w → 1 ≤ length (split (get_or_self reflections w)) ≤ 2.
Proof.
  intros Hw. unfold get_or_self.
  destruct (reflections !! w) as [v|] eqn:E; simpl.
  - apply elem_of_list_to_map_2 in E.
    by apply (proj1 (Forall_forall _ _) reflections_items_words (w, v) E).
  - rewrite (split_word w Hw). simpl. lia.
Qed.

Lemma bind_split_length (l : list str) :
  Forall (λ u, 1 ≤ length (split u) ≤ 2) l →
  length l ≤ length (l ≫= split) ≤ 2 * length l.
Proof.
  induction 1 as [|u l Hu _ IH]; [simpl; lia|].
  rewrite bind_cons, length_app. simpl. lia.
Qed.

(** X6. [reflect] never drops a word and at most doubles their number: a
    sentence of n words comes back with between n and 2n words. *)
Theorem reflect_word_count s :
  length (split s) ≤ length (split (reflect s)) ≤ 2 * length (split s).
Proof.
  rewrite split_reflect.
  assert (Hn : length (split s)
               = length (get_or_self reflections <$> split (lower s))).
  { by rewrite split_lower, !length_fmap. }
  rewrite Hn. apply bind_split_length, Forall_fmap.
  eapply Forall_impl; [apply split_words|]. apply get_or_self_words.
Qed.

(** ** Letter case *)

Lemma newline_lower_char c :
  bool_decide (lower_char c = "010") = bool_decide (c = "010").
Proof. each_char c; reflexivity. Qed.

Lemma dot_run_lower s : dot_run (lower s) = lower (dot_run s).
Proof.
  induction s as [|c s IH]; [done|].
  unfold lower at 1. rewrite fmap_cons. fold (lower s). simpl.
  rewrite newline_lower_char. case_bool_decide; [done|].
  unfold lower at 2. rewrite fmap_cons. by rewrite IH.
Qed.

Lemma try_lengths_lower k s n :
  (∀ t, k (lower t) = (fmap lower : list str → list str) <$> k t) →
  try_lengths k (lower s) n = (fmap lower : list str → list str) <$> try_lengths k s n.
Proof.
  intros Hk. induction n as [|n IH]; simpl.
  - unfold lower at 1. rewrite <- fmap_drop. fold (lower (drop 0 s)). rewrite Hk.
    by destruct (k (drop 0 s)).
  - unfold lower at 1. rewrite <- fmap_drop. fold (lower (drop (S n) s)). rewrite Hk.
    destruct (k (drop (S n) s)) as [gs|]; [|exact IH].
    simpl. unfold lower at 1. by rewrite <- fmap_take.
Qed.

(** Matching does not look at the letter case of the text; the groups keep
    the case of the text they are cut from. *)
Lemma match_nodes_lower ns s :
  match_nodes ns (lower s) = (fmap lower : list str → list str) <$> match_nodes ns s.
Proof.
  revert s. induction ns as [|[c|] ns IH]; intros s; [done| |].
  - destruct s as [|a s]; [done|].
    unfold lower at 1. rewrite fmap_cons. fold (lower s). simpl.
    rewrite lower_char_idemp. case_bool_decide; [apply IH|done].
  - simpl. rewrite dot_run_lower. unfold lower at 2. rewrite length_fmap.
    by apply try_lengths_lower.
Qed.

Lemma re_match_lower pattern s :
  re_match pattern (lower s) =
  (fmap (fmap lower : list str → list str) : option (list str) → option (list str))
    <$> re_match pattern s.
Proof.
  unfold re_match. destruct (compile pattern) as [ns|e]; [|done].
  simpl. by rewrite match_nodes_lower.
Qed.









(** X9. The sentinel test takes no line away from the rules: a line that
    ends the session is matched by no rule of the table. *)
Theorem sentinel_matches_no_rule s :
  is_sentinel s = true → Forall (no_match s) responses.
Proof.
  intros Hs. apply bool_decide_eq_true in Hs.
  assert (Hl : Forall (no_match (lower s)) responses).
  { repeat (apply elem_of_cons in Hs as [->|Hs]; [by_compute|]).
    by apply elem_of_nil in Hs. }
  eapply Forall_impl; [exact Hl|]. intros [pattern phrases]. unfold no_match. simpl.
  rewrite re_match_lower. by destruct (re_match pattern s) as [[?|]|?].
Qed.

Lemma sentinel_matches_no_rule_witness : Forall (no_match (py "Bye")) responses.
Proof. apply (sentinel_matches_no_rule (py "Bye")). reflexivity. Defined.

(** ** The text of a reply *)

Lemma format_chars (P : ascii → Prop) template args out :
  Forall P template → Forall (Forall P) args →
  format template args = Ok out → Forall P out.
Proof.
  revert args out.
  induction template as [|c|c d t IHt IHd] using list_ind2; intros args out Ht Ha.
  - by intros [= <-].
  - simpl. repeat case_bool_decide; try done. by intros [= <-].
  - destruct (decide (c = "{")) as [->|Hopen]; [|destruct (decide (c = "}")) as [->|Hclose]].
    + cbn [format]. change (bool_decide ("{" = "{")) with true. cbn match.
      inversion_clear Ht as [|? ? Hc Ht']. inversion_clear Ht' as [|? ? Hd Ht''].
      case_bool_decide; [|case_bool_decide; [|done]].
      * destruct (format t args) as [out'|] eqn:E; [|done]. intros [= <-].
        constructor; [done|]. by eapply IHt.
      * destruct Ha as [|a args Haa Ha]; [done|].
        destruct (format t args) as [out'|] eqn:E; [|done]. intros [= <-].
        apply Forall_app. split; [done|]. by eapply IHt.
    + cbn [format]. change (bool_decide ("}" = "{")) with false.
      change (bool_decide ("}" = "}")) with true. cbn match.
      inversion_clear Ht as [|? ? Hc Ht']. inversion_clear Ht' as [|? ? Hd Ht''].
      case_bool_decide; [|done].
      destruct (format t args) as [out'|] eqn:E; [|done]. intros [= <-].
      constructor; [done|]. by eapply IHt.
    + rewrite format_plain by done. inversion_clear Ht as [|? ? Hc Ht'].
      destruct (format (d :: t) args) as [out'|] eqn:E; [|done]. intros [= <-].
      constructor; [done|]. by eapply IHd.
Qed.

Lemma format_head c t args out :
  c ≠ "{" → c ≠ "}" → format (c :: t) args = Ok out → head out = Some c.
Proof.
  intros Hopen Hclose. rewrite format_plain by done.
  destruct (format t args); [|done]. by intros [= <-].
Qed.

Lemma join_chars (P : ascii → Prop) (l : list str) :
  P " " → Forall (Forall P) l → Forall P (join (py " ") l).
Proof.
  intros Hsp. induction 1 as [|u l Hu Hl IH]; [constructor|].
  destruct l as [|u' l]; [done|].
  change (join (py " ") (u :: u' :: l)) with (u ++ " " :: join (py " ") (u' :: l)).
  apply Forall_app. split; [done|]. by constructor.
Qed.

Lemma reflections_items_spaces :
  Forall (λ kv, Forall (λ c, isspace c = true → c = " ") kv.2) reflections_items.
Proof. apply (bool_decide_unpack _). vm_compute. reflexivity. Qed.

(** The only whitespace [reflect] returns is the space it joins with. *)
Lemma reflect_chars s : Forall (λ c, isspace c = true → c = " ") (reflect s).
Proof.
  unfold reflect, reflect_with. apply join_chars; [done|]. apply Forall_fmap.
  eapply Forall_impl; [apply split_words|]. intros w [_ Hw]. simpl.
  unfold get_or_self. destruct (reflections !! w) as [v|] eqn:E; simpl.
  - apply elem_of_list_to_map_2 in E.
    by apply (proj1 (Forall_forall _ _) reflections_items_spaces (w, v) E).
  - eapply Forall_impl; [exact Hw|]. intros c Hc. simpl in Hc. by rewrite Hc.
Qed.

Lemma responses_templates_plain :
  Forall (λ rule,
    Forall (λ t, (head t ∉ [None; Some "{"; Some "}"])
                 ∧ Forall (λ c, isspace c = true → c = " ") t) rule.2) responses.
Proof. apply (bool_decide_unpack _). vm_compute. reflexivity. Qed.

Lemma default_responses_plain :
  Forall (λ d, d ≠ [] ∧ Forall (λ c, isspace c = true → c = " ") d) default_responses.
Proof. apply (bool_decide_unpack _). vm_compute. reflexivity. Qed.

(** X10. Every reply is one non-empty line of text: whatever the input line
    holds (tabs, runs of spaces, other whitespace), the reply has no
    whitespace character other than the plain space, hence no newline. *)
Theorem reply_one_line s r reply :
  respond s r = Ok reply →
  reply ≠ [] ∧ ("010" ∉ reply) ∧ Forall (λ c, isspace c = true → c = " ") reply.
Proof.
  intros Hr.
  assert (H : reply ≠ [] ∧ Forall (λ c, isspace c = true → c = " ") reply).
  { destruct (respond_total s r) as (reply' & Hr' & Ha).
    rewrite Hr in Hr'. injection Hr' as <-. destruct Ha as [Ha|[_ Hin]].
    - inversion Ha as [|pre pattern phrases post groups template ? Heq _ _ Hin _ Hf].
      assert (Hrule : (pattern, phrases) ∈ responses).
      { rewrite Heq. apply elem_of_app. right. by left. }
      pose proof (proj1 (Forall_forall _ _) responses_templates_plain _ Hrule) as Hp.
      simpl in Hp.
      destruct (proj1 (Forall_forall _ _) Hp _ Hin) as [Hhead Hchars].
      split.
      + destruct template as [|c t]; [by destruct Hhead; left|].
        intros Hnil. rewrite Hnil in Hf.
        assert (head [] = Some c) as [=].
        eapply (format_head c t); [| |exact Hf].
        * intros ->. apply Hhead. right. by left.
        * intros ->. apply Hhead. right. right. by left.
      + eapply format_chars; [exact Hchars| |exact Hf].
        apply Forall_fmap, Forall_true. intros g. apply reflect_chars.
    - by apply (proj1 (Forall_forall _ _) default_responses_plain). }
  destruct H as [Hne Hc]. split; [done|]. split; [|done].
  intros Hin. by specialize (proj1 (Forall_forall _ _) Hc _ Hin eq_refl).
Qed.

Lemma reply_one_line_witness :
  py "Why do you feel so tired?" ≠ []
  ∧ ("010" ∉ py "Why do you feel so tired?")
  ∧ Forall (λ c, isspace c = true → c = " ") (py "Why do you feel so tired?").
Proof.
  apply (reply_one_line (py "i feel  so" ++ "009" :: py "tired ") 0). reflexivity.
Defined.

(** ** The transcript of a session *)

(** Lines that are not sentinels each add a prompt and a reply to the
    output, the n-th of them with the n-th draw. *)
Lemma chat_loop_turns rng before n out :
  Forall (λ x, is_sentinel x = false) before →
  ∃ replies,
    Forall2 (λ ir reply, respond ir.2 (rng ir.1) = Ok reply)
      (zip (seq n (length before)) before) replies
    ∧ ∀ lines,
        chat_loop rng (before ++ lines) n out =
        chat_loop rng lines (n + length before)
          (out ++ (replies ≫= λ reply,
                     [Prompt (py "You: "); PrintLine (py "Eliza: " ++ reply)])).
Proof.
  intros Hb. revert n out. induction Hb as [|x before Hx _ IH]; intros n out.
  - exists []. split; [constructor|]. intros lines. simpl.
    by rewrite Nat.add_0_r, app_nil_r.
  - destruct (respond_total x (rng n)) as (reply & Hr & _).
    destruct (IH (S n) ((out ++ [Prompt (py "You: ")])
                        ++ [PrintLine (py "Eliza: " ++ reply)]))
      as (replies & Hall & Hloop).
    exists (reply :: replies). split; [by constructor|].
    intros lines. simpl. rewrite Hx, Hr, Hloop. f_equal; [lia|].
    by rewrite <- !app_assoc.
Qed.

(** X11. The transcript of a session.  The lines before the first sentinel
    are answered in order, each by [respond] under its own draw, whatever was
    said before; the output is the greeting, then a prompt and a reply per
    line, then one more prompt.  If the input stream ends there, the pending
    read raises EOFError; if a sentinel comes, the farewell is printed, the
    session ends normally and the lines after the sentinel stay unread. *)
Theorem eliza_chat_transcript rng before :
  Forall (λ x, is_sentinel x = false) before →
  ∃ replies,
    Forall2 (λ ir reply, respond ir.2 (rng ir.1) = Ok reply)
      (zip (seq 0 (length before)) before) replies
    ∧ eliza_chat rng before =
      Session (Raise EOFError) [] (length before)
        ([PrintLine (py "Eliza: Hello, I'm Eliza. What's on your mind?")]
         ++ (replies ≫= λ reply,
               [Prompt (py "You: "); PrintLine (py "Eliza: " ++ reply)])
         ++ [Prompt (py "You: ")])
    ∧ ∀ s rest, is_sentinel s = true →
        eliza_chat rng (before ++ s :: rest) =
        Session (Ok ()) rest (length before)
          ([PrintLine (py "Eliza: Hello, I'm Eliza. What's on your mind?")]
           ++ (replies ≫= λ reply,
                 [Prompt (py "You: "); PrintLine (py "Eliza: " ++ reply)])
           ++ [Prompt (py "You: ");
               PrintLine (py "Eliza: Goodbye! It was nice talking to you.")]).
Proof.
  intros Hb. unfold eliza_chat.
  destruct (chat_loop_turns rng before 0
              [PrintLine (py "Eliza: Hello, I'm Eliza. What's on your mind?")] Hb)
    as (replies & Hall & Hloop).
  exists replies. split; [done|]. split.
  - rewrite <- (app_nil_r before) at 1. rewrite Hloop. simpl.
    done.
  - intros s rest Hs. rewrite Hloop. simpl. rewrite Hs. simpl.
    by rewrite <- app_assoc.
Qed.

Lemma eliza_chat_transcript_witness :
  ∃ replies,
    Forall2 (λ ir reply, respond ir.2 ((λ n, 2 * n) ir.1) = Ok reply)
      (zip (seq 0 2) [py "I'm fine"; py "no"]) replies
    ∧ eliza_chat (λ n, 2 * n) [py "I'm fine"; py "no"] =
      Session (Raise EOFError) [] 2
        ([PrintLine (py "Eliza: Hello, I'm Eliza. What's on your mind?")]
         ++ (replies ≫= λ reply,
               [Prompt (py "You: "); PrintLine (py "Eliza: " ++ reply)])
         ++ [Prompt (py "You: ")])
    ∧ ∀ s rest, is_sentinel s = true →
        eliza_chat (λ n, 2 * n) ([py "I'm fine"; py "no"] ++ s :: rest) =
        Session (Ok ()) rest 2
          ([PrintLine (py "Eliza: Hello, I'm Eliza. What's on your mind?")]
           ++ (replies ≫= λ reply,
                 [Prompt (py "You: "); PrintLine (py "Eliza: " ++ reply)])
           ++ [Prompt (py "You: ");
               PrintLine (py "Eliza: Goodbye! It was nice talking to you.")]).
Proof.
  apply (eliza_chat_transcript (λ n, 2 * n) [py "I'm fine"; py "no"]).
  by_compute.
Defined.

Lemma chat_loop_status_iff rng lines n out :
  (status (chat_loop rng lines n out) = Ok ()
   ↔ Exists (λ x, is_sentinel x = true) lines)
  ∧ (status (chat_loop rng lines n out) = Raise EOFError
     ↔ Forall (λ x, is_sentinel x = false) lines).
Proof.
  revert n out. induction lines as [|x lines IH]; intros n out; simpl.
  - rewrite Exists_nil. split; split; done.
  - rewrite Exists_cons, Forall_cons. destruct (is_sentinel x) eqn:Hx; simpl.
    + split; split; try done; [by left|by intros [? _]].
    + destruct (respond_total x (rng n)) as (reply & -> & _).
      destruct (IH (S n) ((out ++ [Prompt (py "You: ")])
                          ++ [PrintLine (py "Eliza: " ++ reply)])) as [IH1 IH2].
      rewrite IH1, IH2. split; split; try tauto. intros [?|?]; [done|tauto].
Qed.

(** X12. How a session ends depends on the sentinels alone: it ends
    normally exactly when some line of the input stream is a sentinel, and
    with the EOFError of the pending read exactly when none is. *)
Theorem eliza_chat_status_iff rng lines :
  (status (eliza_chat rng lines) = Ok ()
   ↔ Exists (λ x, is_sentinel x = true) lines)
  ∧ (status (eliza_chat rng lines) = Raise EOFError
     ↔ Forall (λ x, is_sentinel x = false) lines).
Proof. apply chat_loop_status_iff. Qed.

(** ** The tables *)

(** X13. No rule of the table is dead: for each rule there is an input line
    that no earlier rule matches and that the rule matches, so that the rule
    answers it. *)
Theorem every_rule_fires i rule :
  responses !! i = Some rule →
  ∃ s groups,
    Forall (no_match s) (take i responses)
    ∧ re_match rule.1 s = Ok (Some groups).
Proof.
  intros Hi.
  assert (Hprobe : ∀ s groups,
    Forall (no_match s) (take i responses) ∧ re_match rule.1 s = Ok (Some groups) →
    ∃ s groups, Forall (no_match s) (take i responses)
                ∧ re_match rule.1 s = Ok (Some groups)) by eauto.
  destruct i as [|[|[|[|[|[|[|[|[|[|i]]]]]]]]]]; simpl in Hi;
    [injection Hi as <-..|done].
  - apply (Hprobe (py "i feel x") [py "x"]). split; [by_compute|reflexivity].
  - apply (Hprobe (py "why do you x") [py "x"]). split; [by_compute|reflexivity].
  - apply (Hprobe (py "i'm x") [py "x"]). split; [by_compute|reflexivity].
  - apply (Hprobe (py "i x you") [py "x"]). split; [by_compute|reflexivity].
  - apply (Hprobe (py "because x") [py "x"]). split; [by_compute|reflexivity].
  - apply (Hprobe (py "yes") []). split; [by_compute|reflexivity].
  - apply (Hprobe (py "no") []). split; [by_compute|reflexivity].
  - apply (Hprobe (py "you are x") [py "x"]). split; [by_compute|reflexivity].
  - apply (Hprobe (py "i want x") [py "x"]). split; [by_compute|reflexivity].
  - apply (Hprobe (py "can you x") [py "x"]). split; [by_compute|reflexivity].
Qed.

Lemma every_rule_fires_witness :
  ∃ s groups,
    Forall (no_match s) (take 8 responses)
    ∧ re_match (py "i want (.*)") s = Ok (Some groups).
Proof.
  apply (every_rule_fires 8
           (py "i want (.*)", [py "Why do you want {}?";
                               py "What would it mean if you got {}?"])).
  reflexivity.
Defined.

(** X14. The dict literals lose no entry: no key is written twice, neither
    among the patterns of [responses] nor among the keys of [reflections],
    so that looking a key up in [reflections] yields a value exactly when the
    pair is one of the ten written in the source. *)
Theorem tables_keys_distinct :
  NoDup responses.*1
  ∧ NoDup reflections_items.*1
  ∧ ∀ k v, reflections !! k = Some v ↔ (k, v) ∈ reflections_items.
Proof.
  assert (Hnd : NoDup reflections_items.*1) by by_compute.
  split; [by_compute|]. split; [done|].
  intros k v. unfold reflections. by rewrite <- elem_of_list_to_map.
Qed.

Lemma match_nodes_prefix ns s groups :
  match_nodes ns s = Some groups →
  lower (take (length (literal_prefix ns)) s) = lower (literal_prefix ns).
Proof.
  revert s. induction ns as [|[c|] ns IH]; intros s; [done| |done].
  destruct s as [|a s]; [done|]. cbn [match_nodes literal_prefix length take].
  case_bool_decide as Hc; [|done].
  intros Hm. unfold lower in *. rewrite !fmap_cons, Hc. f_equal. by apply IH.
Qed.

Lemma re_match_prefix rule s groups :
  re_match rule.1 s = Ok (Some groups) →
  lower (take (length (rule_prefix rule)) s) = lower (rule_prefix rule).
Proof.
  unfold re_match, rule_prefix. destruct (compile rule.1) as [ns|e]; [|done].
  intros [= Hm]. by eapply match_nodes_prefix.
Qed.

Lemma prefixes_compatible l1 l2 s :
  lower (take (length l1) s) = lower l1 → lower (take (length l2) s) = lower l2 →
  compatible l1 l2.
Proof.
  intros H1 H2. unfold compatible, lower in *.
  rewrite !fmap_take, <- H1, <- H2, <- !fmap_take, !take_take.
  do 2 f_equal. lia.
Qed.

Lemma responses_overlaps :
  Forall (λ ri, Forall (λ rj,
      ri.1 ≠ rj.1 → compatible (rule_prefix ri) (rule_prefix rj) →
      py "i (.*) you" ∈ [ri.1; rj.1]
      ∧ (py "i feel (.*)" ∈ [ri.1; rj.1] ∨ py "i want (.*)" ∈ [ri.1; rj.1]))
    responses) responses.
Proof. apply (bool_decide_unpack _). vm_compute. reflexivity. Qed.

(** X15. The order of the rules matters for one rule only: when two
    different rules of the table both match an input line, one of them is
    "i ... you" and the other is "i feel ..." or "i want ...".  Any other
    two rules are never matched by the same line. *)
Theorem rules_overlap ri rj s gi gj :
  ri ∈ responses → rj ∈ responses → ri.1 ≠ rj.1 →
  re_match ri.1 s = Ok (Some gi) → re_match rj.1 s = Ok (Some gj) →
  py "i (.*) you" ∈ [ri.1; rj.1]
  ∧ (py "i feel (.*)" ∈ [ri.1; rj.1] ∨ py "i want (.*)" ∈ [ri.1; rj.1]).
Proof.
  intros Hi Hj Hne Hmi Hmj.
  pose proof (proj1 (Forall_forall _ _) responses_overlaps ri Hi) as H.
  apply (proj1 (Forall_forall _ _) H rj Hj Hne).
  apply (prefixes_compatible _ _ s); by eapply re_match_prefix.
Qed.

Lemma rules_overlap_witness :
  py "i (.*) you" ∈ [py "i feel (.*)"; py "i (.*) you"]
  ∧ (py "i feel (.*)" ∈ [py "i feel (.*)"; py "i (.*) you"]
     ∨ py "i want (.*)" ∈ [py "i feel (.*)"; py "i (.*) you"]).
Proof.
  apply (rules_overlap
           (py "i feel (.*)", [py "Why do you feel {}?"; py "How long have you felt {}?";
                               py "Do you think feeling {} is normal?"])
           (py "i (.*) you", [py "Why do you {} me?"; py "What makes you think you {} me?"])
           (py "I feel like you") [py "like you"] [py "feel like"]).
  - by_compute.
  - by_compute.
  - by_compute.
  - reflexivity.
  - reflexivity.
Defined.

(** ** The rule "i ... you" *)

(** The greedy group stops at the longest length at which the rest of the
    pattern matches. *)
Lemma try_lengths_longest k s n m g :
  m ≤ n → k (drop m s) = Some g → (∀ j, m < j ≤ n → k (drop j s) = None) →
  try_lengths k s n = Some (take m s :: g).
Proof.
  intros Hmn Hm Hj. induction n as [|n IH].
  - assert (m = 0) as -> by lia. simpl. by rewrite Hm.
  - destruct (decide (m = S n)) as [->|Hne].
    + simpl. by rewrite Hm.
    + simpl. rewrite (Hj (S n)) by lia. apply IH; [lia|].
      intros j ?. apply Hj. lia.
Qed.

Lemma dot_run_app X t : "010" ∉ X → dot_run (X ++ t) = X ++ dot_run t.
Proof.
  induction X as [|c X IH]; [done|]. intros [Hc HX]%not_elem_of_cons. simpl.
  rewrite bool_decide_false by done. by rewrite IH.
Qed.

Lemma i_you_match p X y :
  lower p = py "i " → lower y = py " you" → "010" ∉ X →
  re_match (py "i (.*) you") (p ++ X ++ y) = Ok (Some [X]).
Proof.
  intros Hp Hy HX.
  assert (Hlen : length y = 4).
  { pose proof (f_equal length Hy) as H. unfold lower in H. by rewrite length_fmap in H. }
  rewrite (re_match_compiled _ ((Literal <$> py "i ") ++ GroupAnyStar :: (Literal <$> py " you")))
    by reflexivity.
  rewrite match_nodes_literals by done. cbn [match_nodes].
  rewrite (try_lengths_longest _ _ _ (length X) []).
  - by rewrite take_app_length.
  - rewrite dot_run_app, length_app by done. lia.
  - rewrite drop_app_length, match_nodes_only_literals.
    rewrite bool_decide_true; [done|]. change (length (py " you")) with 4.
    by rewrite <- Hlen, firstn_all.
  - intros j [Hj _]. rewrite match_nodes_only_literals.
    rewrite bool_decide_false; [done|]. intros Heq.
    apply (f_equal length) in Heq. unfold lower in Heq.
    rewrite !length_fmap, length_take, length_drop, length_app in Heq.
    change (length (py " you")) with 4 in Heq. lia.
Qed.

Lemma match_nodes_first_differs c ns a s :
  lower_char a ≠ lower_char c → match_nodes (Literal c :: ns) (a :: s) = None.
Proof. intros H. simpl. by rewrite bool_decide_false. Qed.

Lemma match_nodes_second_differs c1 c2 ns a b s :
  lower_char b ≠ lower_char c2 →
  match_nodes (Literal c1 :: Literal c2 :: ns) (a :: b :: s) = None.
Proof. intros H. simpl. rewrite (bool_decide_false _ H). by case_bool_decide. Qed.

(** X16. A line that reads "i", some text X and " you" at its end (in any
    letter case, X without the word pattern of the first rule) is answered
    by the rule "i ... you" with the whole of X as its group: the reply is
    "Why do you X' me?" or "What makes you think you X' me?", X' being
    reflect(X). *)
Theorem i_you_replies p X y r :
  lower p = py "i " → lower y = py " you" → "010" ∉ X →
  re_match (py "i feel (.*)") (p ++ X ++ y) = Ok None →
  respond (p ++ X ++ y) r = Ok (py "Why do you " ++ reflect X ++ py " me?")
  ∨ respond (p ++ X ++ y) r = Ok (py "What makes you think you " ++ reflect X ++ py " me?").
Proof.
  intros Hp Hy HX Hfeel. unfold respond.
  change responses with (take 3 responses ++
    (py "i (.*) you", [py "Why do you {} me?"; py "What makes you think you {} me?"])
    :: drop 4 responses).
  rewrite (respond_by_rule _ _ _ _ _ [X]); [| |by apply i_you_match].
  - rewrite fmap_cons, fmap_nil. generalize (reflect X). intros u.
    destruct (choice_format [py "Why do you {} me?"; py "What makes you think you {} me?"]
                [u] r) as (t & Hin & ->); [done|].
    apply elem_of_cons in Hin as [->|Hin]; [by left|].
    apply elem_of_cons in Hin as [->|Hin]; [by right|].
    by apply elem_of_nil in Hin.
  - destruct p as [|a [|b [|? ?]]]; try done.
    injection Hp as Ha Hb.
    repeat constructor; unfold no_match; simpl fst.
    + done.
    + rewrite (re_match_compiled _ ((Literal <$> py "why do you ") ++ [GroupAnyStar]))
        by reflexivity.
      f_equal. apply match_nodes_first_differs. by rewrite Ha.
    + rewrite (re_match_compiled _ ((Literal <$> py "i'm ") ++ [GroupAnyStar]))
        by reflexivity.
      f_equal. apply match_nodes_second_differs. by rewrite Hb.
Qed.

Lemma i_you_replies_witness :
  respond (py "I " ++ py "really admire" ++ py " YOU") 1
    = Ok (py "Why do you " ++ reflect (py "really admire") ++ py " me?")
  ∨ respond (py "I " ++ py "really admire" ++ py " YOU") 1
    = Ok (py "What makes you think you " ++ reflect (py "really admire") ++ py " me?").
Proof.
  apply (i_you_replies (py "I ") (py "really admire") (py " YOU") 1).
  - reflexivity.
  - reflexivity.
  - by_compute.
  - reflexivity.
Defined.

(** ** Lines no rule can match *)




